(** * Rate limiting strategies of [src/main.ts] over a model of the Redis store

    The five strategies of [src/main.ts] (fixed window, leaky bucket,
    sliding logs, sliding window, token bucket) are embedded as functions in
    a small state-and-error monad over a model of the Redis keyspace.

    Conventions of the embedding.
    - JavaScript numbers that the code handles are integer valued; they are
      modelled as [Z].  The one place where a non-integer can arise, the
      quotient inside [Math.trunc], is modelled together with its
      truncation, and [NaN] is kept as a separate case.
    - A Redis string value written by this code is always the decimal
      representation of an integer, so a string value is modelled as the
      integer it denotes ([+value] in the source is then the identity).
    - One check runs at one instant of the clock: every [dayjs()] of one
      call reads the same Unix time, which is also the time the store uses
      to decide whether a key has expired. *)

From stdpp Require Import gmap strings list fin_maps pretty.
From Stdlib Require Import ZArith QArith Lia.

#[local] Open Scope Z_scope.

(** ** The Redis keyspace *)

Module Redis.

(** The three kinds of value the strategies store. A sorted set maps each
    member to its score: adding a member twice keeps one entry. *)
Inductive value :=
| VString (n : Z)
| VList (l : list string)
| VZSet (z : gmap string Z).

(** A key holds a value and, optionally, the Unix time at which it
    expires. *)
Record entry := Entry { e_value : value; e_expire : option Z }.

Abbreviation store := (gmap string entry).

Inductive error :=
| WRONGTYPE          (* operation against a key holding the wrong kind of value *)
| InvalidExpire.     (* SET ... EX with a non-positive number of seconds *)

(** Lower or upper end of a score range. *)
Inductive bound := NegInf | Score (z : Z) | PosInf.

Definition bound_leb_score (b : bound) (x : Z) : bool :=
  match b with NegInf => true | Score z => z <=? x | PosInf => false end.

Definition score_leb_bound (x : Z) (b : bound) : bool :=
  match b with NegInf => false | Score z => x <=? z | PosInf => true end.

Definition in_range (lo hi : bound) (x : Z) : bool :=
  bound_leb_score lo x && score_leb_bound x hi.

Definition expired (now : Z) (e : entry) : bool :=
  match e_expire e with
  | Some t => t <=? now
  | None => false
  end.

(** What a command sees at a key: expired keys are gone. *)
Definition live (now : Z) (db : store) (key : string) : option entry :=
  match db !! key with
  | Some e => if expired now e then None else Some e
  | None => None
  end.

(** The result of awaiting a promise: it resolves with a value or rejects
    with an error; either way the store is the one the commands left. *)
Inductive outcome (A : Type) :=
| Resolved (a : A) (db : store)
| Rejected (e : error) (db : store).
Arguments Resolved {A} a db.
Arguments Rejected {A} e db.

(** A computation reads the clock and the store. *)
Definition promise (A : Type) := Z → store → outcome A.

Definition ret {A} (a : A) : promise A := λ _ db, Resolved a db.

Definition bind {A B} (m : promise A) (k : A → promise B) : promise B :=
  λ now db,
    match m now db with
    | Resolved a db' => k a now db'
    | Rejected e db' => Rejected e db'
    end.

(** [Promise.all([a, b])]: both commands are issued, in this order; the
    result rejects with the first rejection. *)
Definition all2 {A B} (a : promise A) (b : promise B) : promise (A * B) :=
  λ now db,
    match a now db with
    | Resolved x db1 =>
        match b now db1 with
        | Resolved y db2 => Resolved (x, y) db2
        | Rejected e db2 => Rejected e db2
        end
    | Rejected e db1 =>
        match b now db1 with
        | Resolved _ db2 => Rejected e db2
        | Rejected _ db2 => Rejected e db2
        end
    end.

(** [dayjs().utc().unix()]: the clock, in Unix seconds. *)
Definition clock : promise Z := λ now db, Resolved now db.

(** *** String commands *)

Definition get (key : string) : promise (option Z) :=
  λ now db,
    match live now db key with
    | None => Resolved None db
    | Some (Entry (VString n) _) => Resolved (Some n) db
    | Some _ => Rejected WRONGTYPE db
    end.

Definition exists_ (key : string) : promise Z :=
  λ now db,
    match live now db key with
    | None => Resolved 0 db
    | Some _ => Resolved 1 db
    end.

(** [SET key n] drops any expiry; [SET key n EX secs] expires the key
    [secs] seconds from now. Both overwrite a value of any kind. *)
Definition set (key : string) (n : Z) (EX : option Z) : promise unit :=
  λ now db,
    match EX with
    | None => Resolved () (<[key := Entry (VString n) None]> db)
    | Some secs =>
        if secs <=? 0 then Rejected InvalidExpire db
        else Resolved () (<[key := Entry (VString n) (Some (now + secs))]> db)
    end.

(** [INCRBY key d], for [INCR] and [DECR]: a missing key counts as 0 and
    is created without expiry; an existing key keeps its expiry. *)
Definition incrby (key : string) (d : Z) : promise Z :=
  λ now db,
    match live now db key with
    | None => Resolved d (<[key := Entry (VString d) None]> db)
    | Some (Entry (VString n) ex) =>
        Resolved (n + d) (<[key := Entry (VString (n + d)) ex]> db)
    | Some _ => Rejected WRONGTYPE db
    end.

Definition incr (key : string) : promise Z := incrby key 1.
Definition decr (key : string) : promise Z := incrby key (-1).

(** *** List commands *)

Definition lLen (key : string) : promise Z :=
  λ now db,
    match live now db key with
    | None => Resolved 0 db
    | Some (Entry (VList l) _) => Resolved (Z.of_nat (length l)) db
    | Some _ => Rejected WRONGTYPE db
    end.

(** [RPOP] removes the last element; a list that becomes empty is
    deleted. *)
Definition rPop (key : string) : promise (option string) :=
  λ now db,
    match live now db key with
    | None => Resolved None db
    | Some (Entry (VList l) ex) =>
        match last l with
        | None => Resolved None db
        | Some x =>
            match removelast l with
            | [] => Resolved (Some x) (delete key db)
            | l' => Resolved (Some x) (<[key := Entry (VList l') ex]> db)
            end
        end
    | Some _ => Rejected WRONGTYPE db
    end.

(** [RPUSH] appends at the tail and answers the new length. *)
Definition rPush (key : string) (x : string) : promise Z :=
  λ now db,
    match live now db key with
    | None => Resolved 1 (<[key := Entry (VList [x]) None]> db)
    | Some (Entry (VList l) ex) =>
        Resolved (Z.of_nat (length l) + 1) (<[key := Entry (VList (l ++ [x])) ex]> db)
    | Some _ => Rejected WRONGTYPE db
    end.

(** *** Sorted-set commands *)

Definition in_score_range (lo hi : bound) (z : gmap string Z) : gmap string Z :=
  filter (λ kv, in_range lo hi kv.2 = true) z.

Definition out_of_score_range (lo hi : bound) (z : gmap string Z) : gmap string Z :=
  filter (λ kv, in_range lo hi kv.2 = false) z.

Definition zCount (key : string) (lo hi : bound) : promise Z :=
  λ now db,
    match live now db key with
    | None => Resolved 0 db
    | Some (Entry (VZSet z) _) => Resolved (Z.of_nat (size (in_score_range lo hi z))) db
    | Some _ => Rejected WRONGTYPE db
    end.

(** [ZREMRANGEBYSCORE] removes the members whose score lies in the closed
    range and answers how many it removed; a set that becomes empty is
    deleted. *)
Definition zRemRangeByScore (key : string) (lo hi : bound) : promise Z :=
  λ now db,
    match live now db key with
    | None => Resolved 0 db
    | Some (Entry (VZSet z) ex) =>
        let removed := Z.of_nat (size (in_score_range lo hi z)) in
        let z' := out_of_score_range lo hi z in
        if decide (z' = ∅) then Resolved removed (delete key db)
        else Resolved removed (<[key := Entry (VZSet z') ex]> db)
    | Some _ => Rejected WRONGTYPE db
    end.

(** [ZADD] sets the score of the member, adding it when it is new, and
    answers the number of members added. *)
Definition zAdd (key : string) (score : Z) (member : string) : promise Z :=
  λ now db,
    match live now db key with
    | None => Resolved 1 (<[key := Entry (VZSet {[member := score]}) None]> db)
    | Some (Entry (VZSet z) ex) =>
        Resolved (match z !! member with Some _ => 0 | None => 1 end)
                 (<[key := Entry (VZSet (<[member := score]> z)) ex]> db)
    | Some _ => Rejected WRONGTYPE db
    end.

End Redis.

Import Redis.

Declare Scope promise_scope.
Delimit Scope promise_scope with promise.
Notation "'await' x <- c ; k" := (bind c (λ x, k))
  (at level 10, x name, c at level 100, k at level 200,
   format "'[v' 'await'  x  <-  c ; '/' k ']'") : promise_scope.
Notation "'await_' c ; k" := (bind c (λ _, k))
  (at level 10, c at level 100, k at level 200,
   format "'[v' 'await_'  c ; '/' k ']'") : promise_scope.
#[local] Open Scope promise_scope.

(** ** The fragment of dayjs the strategies use *)

Module Dayjs.

(** A dayjs object in UTC mode, to the precision [unix()] reports: the
    Unix time in seconds. *)
Record t := Make { unix : Z }.

(** The unit the strategies pass to [set]: ['second'], also spelt
    ['seconds']. *)
Inductive unit_of_time := second.

(** dayjs objects are immutable: [set] answers a new object and leaves
    the receiver as it was. Setting the second of the minute to [v] keeps
    the minute, and minutes start at multiples of 60 in Unix time. *)
Definition set (d : t) (u : unit_of_time) (v : Z) : t :=
  match u with
  | second => Make (unix d - unix d `mod` 60 + v)
  end.

(** [dayjs().utc()] *)
Definition utc : promise t :=
  await now <- clock; ret (Make now).

End Dayjs.

(** ** JavaScript arithmetic used by the sliding window *)

(** A number that is an integer or [NaN]. *)
Inductive number := Int (z : Z) | NaN.

(** [Math.trunc((a % n) / n)] for integers [a] and [n]. [a % 0] is [NaN],
    and so is everything computed from it. For [n ≠ 0] the remainder [a % n]
    is the integer [Z.rem a n], of absolute value below that of [n], and the
    truncation of its quotient by [n] is [Z.quot]. *)
Definition trunc_rem_div (a n : Z) : number :=
  if n =? 0 then NaN else Int (Z.quot (Z.rem a n) n).

(** [x * (1 - e) + y] *)
Definition weighted (x : Z) (e : number) (y : Z) : number :=
  match e with
  | Int e => Int (x * (1 - e) + y)
  | NaN => NaN
  end.

(** Truthiness of a number in a condition: [0] and [NaN] are falsy. *)
Definition truthy (v : number) : bool :=
  match v with
  | Int z => negb (z =? 0)
  | NaN => false
  end.

(** ** The strategies *)

(** Template literal [`${userID}:${n}`]. *)
Definition window_key (userID : string) (n : Z) : string :=
  userID +:+ ":" +:+ pretty n.

(** [maximumRequests] is optional and defaults to 100. The statement
    [currentTime.set('second', 0)] computes a new object and drops it. A
    value read from the store is a non-empty string, so [value && ...] tests
    that the key exists. *)
Definition RateLimitUsingFixedWindow
    (userID : string) (intervalInSeconds : Z) (maximumRequests : option Z) : promise bool :=
  let maximumRequests := default 100 maximumRequests in
  await currentTime <- Dayjs.utc;
  let _ := Dayjs.set currentTime Dayjs.second 0 in
  let currentWindow := Dayjs.unix currentTime in
  let key := window_key userID currentWindow in
  await value <- get key;
  if match value with Some v => maximumRequests <=? v | None => false end
  then ret false
  else
    await exist <- exists_ key;
    await_ (if negb (exist =? 0)
            then await_ incr key; ret ()
            else set key 0 (Some (intervalInSeconds * 2)));
    ret true.

(** [maximumRequests] is optional and defaults to 100. Both paths end in
    [return false]. *)
Definition RateLimitUsingLeakyBucket
    (userID : string) (uniqueRequestID : string) (maximumRequests : option Z) : promise bool :=
  let maximumRequests := default 100 maximumRequests in
  let key := userID in
  await count <- lLen key;
  if maximumRequests <=? count
  then ret false
  else
    await_ all2 (rPop key) (rPush key uniqueRequestID);
    ret false.

(** [requestCountFromStart] is read with the bounds of [requestCount]. *)
Definition RateLimitUsingSlidingLogs
    (userID : string) (uniqueRequestID : string)
    (intervalInSeconds maximumRequests : Z) : promise bool :=
  await currentTime <- clock;
  let lastWindowTime := currentTime - intervalInSeconds in
  let key := userID in
  await requestCount <- zCount key (Score lastWindowTime) (Score currentTime);
  if maximumRequests <=? requestCount
  then
    await requestCountFromStart <- zCount key (Score lastWindowTime) (Score currentTime);
    await_ (if maximumRequests * 100 <? requestCountFromStart
            then await_ zRemRangeByScore key NegInf (Score lastWindowTime); ret ()
            else ret ());
    ret false
  else
    await_ zAdd key currentTime uniqueRequestID;
    ret true.

(** The second condition is the weighted sum itself, tested for
    truthiness. *)
Definition RateLimitUsingSlidingWindow
    (userID : string) (intervalInSeconds maximumRequests : Z) : promise bool :=
  await currentTime <- Dayjs.utc;
  let _ := Dayjs.set currentTime Dayjs.second 0 in
  let currentWindow := Dayjs.unix currentTime in
  let keyCurrentWindow := window_key userID currentWindow in
  await currentWindowValue <- get keyCurrentWindow;
  let currentWindowCount := default 0 currentWindowValue in
  if maximumRequests <=? currentWindowCount
  then ret false
  else
    let lastWindow := Dayjs.unix currentTime - intervalInSeconds in
    let keyLastWindow := window_key userID lastWindow in
    await lastWindowValue <- get keyLastWindow;
    let lastWindowCount := default 0 lastWindowValue in
    let elapsedTimePercentage := trunc_rem_div currentWindow intervalInSeconds in
    if truthy (weighted lastWindowCount elapsedTimePercentage currentWindowCount)
    then ret false
    else
      await exist <- exists_ keyCurrentWindow;
      await_ (if negb (exist =? 0)
              then await_ incr keyCurrentWindow; ret ()
              else set keyCurrentWindow 0 (Some (intervalInSeconds * 5)));
      ret true.

(** Template literals [`${userID}:last_reset_time`] and [`${userID}:count`]. *)
Definition keyResetTime (userID : string) : string := userID +:+ ":last_reset_time".
Definition keyCount (userID : string) : string := userID +:+ ":count".

(** A missing reset time, and a missing count, read as 0. [allow] is the
    tail both admitting paths share: the decrement and [return true]. *)
Definition RateLimitUsingTokenBucket
    (userID : string) (intervalInSeconds maximumRequests : Z) : promise bool :=
  let keyResetTime := keyResetTime userID in
  let keyCount := keyCount userID in
  await lastRestTimeValue <- get keyResetTime;
  let lastRestTimeCount := default 0 lastRestTimeValue in
  let allow :=
    await_ decr keyCount;
    ret true in
  await now <- clock;
  if intervalInSeconds <=? now - lastRestTimeCount
  then
    await_ set keyCount maximumRequests None;
    await now' <- clock;
    await_ set keyResetTime now' None;
    allow
  else
    await countValue <- get keyCount;
    let count := default 0 countValue in
    if count <=? 0
    then ret false
    else allow.

(** ** Running checks *)

Definition result {A} (o : outcome A) : option A :=
  match o with
  | Resolved a _ => Some a
  | Rejected _ _ => None
  end.

Definition store_after {A} (o : outcome A) : store :=
  match o with
  | Resolved _ db => db
  | Rejected _ db => db
  end.

(** Successive checks, each at its own clock time, each on the store the
    previous one left: the answers, and the final store. *)
Fixpoint session (cs : list (Z * promise bool)) (db : store) : list (option bool) * store :=
  match cs with
  | [] => ([], db)
  | (now, c) :: cs =>
      let o := c now db in
      let r := session cs (store_after o) in
      (result o :: r.1, r.2)
  end.

(** The five strategies behind one name, for statements about all of them.
    The strategies that take no request ID ignore [uniqueRequestID], the
    leaky bucket ignores [intervalInSeconds]. *)
Inductive strategy := FixedWindow | LeakyBucket | SlidingLogs | SlidingWindow | TokenBucket.

Definition check (s : strategy) (userID uniqueRequestID : string)
    (intervalInSeconds maximumRequests : Z) : promise bool :=
  match s with
  | FixedWindow => RateLimitUsingFixedWindow userID intervalInSeconds (Some maximumRequests)
  | LeakyBucket => RateLimitUsingLeakyBucket userID uniqueRequestID (Some maximumRequests)
  | SlidingLogs => RateLimitUsingSlidingLogs userID uniqueRequestID intervalInSeconds maximumRequests
  | SlidingWindow => RateLimitUsingSlidingWindow userID intervalInSeconds maximumRequests
  | TokenBucket => RateLimitUsingTokenBucket userID intervalInSeconds maximumRequests
  end.

(** ** The sliding-window estimate as the specification words it *)

(** The fraction of the current window already elapsed, as a rational in
    [0, 1). *)
Definition spec_elapsedFraction (now intervalSeconds : Z) : Q :=
  (now `mod` intervalSeconds) # (Z.to_pos intervalSeconds).

Definition spec_estimate (currentCount previousCount now intervalSeconds : Z) : Q :=
  (inject_Z currentCount
   + inject_Z previousCount * (1 - spec_elapsedFraction now intervalSeconds))%Q.

Definition spec_sliding_window_denied
    (currentCount previousCount now intervalSeconds maxRequests : Z) : bool :=
  Qle_bool (inject_Z maxRequests)
           (spec_estimate currentCount previousCount now intervalSeconds).

(** ** Views of the store and predicates on it *)

(** The log and the queue a command sees at a key. *)
Definition log_at (now : Z) (db : store) (key : string) : gmap string Z :=
  match live now db key with
  | Some (Entry (VZSet z) _) => z
  | _ => ∅
  end.


(** The count a check reads at a key: a missing key reads as 0. *)
Definition count_at (now : Z) (db : store) (key : string) : Z :=
  match live now db key with
  | Some (Entry (VString n) _) => n
  | _ => 0
  end.

(** The reset time and the token count a check reads: a missing key reads
    as 0. *)
Definition lastResetTime (now : Z) (db : store) (userID : string) : Z :=
  match live now db (keyResetTime userID) with
  | Some (Entry (VString n) _) => n
  | _ => 0
  end.

Definition remainingTokens (now : Z) (db : store) (userID : string) : Z :=
  match live now db (keyCount userID) with
  | Some (Entry (VString n) _) => n
  | _ => 0
  end.


(** The store in which the ledger of [userID] was reset at [r] and holds
    [n] tokens. *)
Definition ledger (userID : string) (r n : Z) (db : store) : store :=
  <[keyCount userID := Entry (VString n) None]>
    (<[keyResetTime userID := Entry (VString r) None]> db).




(** The number of entries of a log in the window that ends at [now]. *)
Definition window_count (I now : Z) (z : gmap string Z) : Z :=
  Z.of_nat (size (in_score_range (Score (now - I)) (Score now) z)).

(** The store in which the log of [userID] is [z]. *)
Definition log_store (userID : string) (z : gmap string Z) (db : store) : store :=
  <[userID := Entry (VZSet z) None]> db.

(** The queue of the identity is missing or holds one entry. *)
Definition short_queue (userID : string) (db : store) : Prop :=
  db !! userID = None ∨ ∃ x, db !! userID = Some (Entry (VList [x]) None).

(** The key is missing or holds a string: [get] answers and does not
    reject. *)
Definition reads_as_count (now : Z) (db : store) (key : string) : Prop :=
  match live now db key with
  | Some (Entry (VList _) _) | Some (Entry (VZSet _) _) => False
  | _ => True
  end.

(** The keys a strategy uses for an identity at a clock time. *)
Definition keys_of (s : strategy) (userID : string) (now : Z) : list string :=
  match s with
  | FixedWindow | SlidingWindow => [window_key userID now]
  | LeakyBucket | SlidingLogs => [userID]
  | TokenBucket => [keyResetTime userID; keyCount userID]
  end.

(** Every window key of the identity that exists counts 0. *)
Definition windows_count_zero (userID : string) (db : store) : Prop :=
  ∀ t e, db !! window_key userID t = Some e → ∃ ex, e = Entry (VString 0) ex.

(** A log of 101 entries [e0 .. e100], all with the same score. *)
Definition log_of_101 (score : Z) : gmap string Z :=
  list_to_map ((λ i : nat, ("e" +:+ pretty i, score)) <$> seq 0 101).

(** ** Evaluations on concrete stores *)

(** Closed equations are settled by evaluating their left-hand sides. *)
Ltac evaluate :=
  intros;
  repeat match goal with x := _ |- _ => subst x end;
  repeat match goal with |- _ ∧ _ => split end;
  lazymatch goal with
  | |- _ = ?r => vm_cast_no_check (@eq_refl _ r)
  end.

(** C1: with [maximumRequests = 1] and a 60 second interval, the fixed
    window admits three checks of one identity within two seconds, where the
    claim has the second one denied. The first check of a key stores 0, so
    the check after it is admitted too, and the key changes every second.
    The sliding window admits the same three checks. *)
Theorem fixed_window_admits_beyond_limit :
  (session [(1700000000, RateLimitUsingFixedWindow "u" 60 (Some 1));
            (1700000000, RateLimitUsingFixedWindow "u" 60 (Some 1));
            (1700000001, RateLimitUsingFixedWindow "u" 60 (Some 1))] ∅).1
  = [Some true; Some true; Some true]
  ∧ (session [(1700000000, RateLimitUsingSlidingWindow "u" 60 1);
              (1700000000, RateLimitUsingSlidingWindow "u" 60 1);
              (1700000001, RateLimitUsingSlidingWindow "u" 60 1)] ∅).1
    = [Some true; Some true; Some true].
Proof. evaluate. Qed.

(** C2: on an empty queue (length 0 below [maximumRequests = 5]) the leaky
    bucket pushes the request and answers [false]. *)
Theorem leaky_bucket_denies_with_space :
  RateLimitUsingLeakyBucket "u" "r1" (Some 5) 1700000000 ∅
  = Resolved false {[ "u" := Entry (VList ["r1"]) None ]}.
Proof. evaluate. Qed.

(** C3: after two admitted checks the current window counts 1 and the
    previous window 0, so the estimate is 1, below [maximumRequests = 5];
    the sliding window denies the third check all the same. *)
Theorem sliding_window_denies_below_limit :
  let db : store := {[ "u:1700000000" := Entry (VString 1) (Some 1700000300) ]} in
  session [(1700000000, RateLimitUsingSlidingWindow "u" 60 5);
           (1700000000, RateLimitUsingSlidingWindow "u" 60 5)] ∅
  = ([Some true; Some true], db)
  ∧ RateLimitUsingSlidingWindow "u" 60 5 1700000000 db = Resolved false db
  ∧ Qred (spec_estimate 1 0 1700000000 60) = 1%Q
  ∧ spec_sliding_window_denied 1 0 1700000000 60 5 = false.
Proof. evaluate. Qed.


(** C5: two checks one second apart, in the same minute and the same
    60 second window, use two keys: the second of the minute is never
    cleared, because the result of [set] is dropped. *)
Theorem fixed_window_key_changes_within_window :
  1700000000 `div` 60 = 1700000001 `div` 60
  ∧ session [(1700000000, RateLimitUsingFixedWindow "u" 60 (Some 5));
             (1700000001, RateLimitUsingFixedWindow "u" 60 (Some 5))] ∅
    = ([Some true; Some true],
       {[ "u:1700000000" := Entry (VString 0) (Some 1700000120);
          "u:1700000001" := Entry (VString 0) (Some 1700000121) ]}).
Proof. evaluate. Qed.


(** C8: the identity has 102 entries, more than [100 * maximumRequests],
    101 of them older than the window; one entry is in the window, so the
    check is denied. The second count is again the count of the window, 1,
    and nothing is deleted. *)
Theorem sliding_logs_keeps_old_entries :
  let log : gmap string Z := <["recent" := 50]> (log_of_101 0) in
  let db : store := {[ "u" := Entry (VZSet log) None ]} in
  size log = 102%nat
  ∧ size (filter (λ kv, kv.2 < 100 - 60) log) = 101%nat
  ∧ RateLimitUsingSlidingLogs "u" "r" 60 1 100 db = Resolved false db.
Proof. evaluate. Qed.

(** C10: from an empty queue and with [maximumRequests = 2] the queue never
    holds more than one entry, the length test never fires, and every check
    answers [false]. *)
Theorem leaky_bucket_denies_every_check :
  session [(1700000000, RateLimitUsingLeakyBucket "u" "r1" (Some 2));
           (1700000001, RateLimitUsingLeakyBucket "u" "r2" (Some 2));
           (1700000002, RateLimitUsingLeakyBucket "u" "r3" (Some 2))] ∅
  = ([Some false; Some false; Some false],
     {[ "u" := Entry (VList ["r3"]) None ]}).
Proof. evaluate. Qed.

(** ** Lemmas on the store *)

(** Unfolding a check down to the commands. *)
Ltac unfold_check :=
  unfold check, RateLimitUsingFixedWindow, RateLimitUsingLeakyBucket,
    RateLimitUsingSlidingLogs, RateLimitUsingSlidingWindow,
    RateLimitUsingTokenBucket, Dayjs.utc, all2, bind, ret, clock in *.

Ltac unfold_commands :=
  unfold get, exists_, set, incr, decr, incrby, lLen, rPop, rPush,
    zCount, zRemRangeByScore, zAdd in *.

Lemma live_Some now (db : store) key e :
  live now db key = Some e → db !! key = Some e ∧ expired now e = false.
Proof.
  unfold live. destruct (db !! key) as [e'|]; [|done].
  destruct (expired now e') eqn:E; [done|]. by intros [= ->].
Qed.

Lemma live_insert_eq now (db : store) key e :
  expired now e = false → live now (<[key := e]> db) key = Some e.
Proof. intros E. unfold live. by rewrite lookup_insert_eq, E. Qed.

Lemma live_insert_ne now (db : store) key key' e :
  key ≠ key' → live now (<[key := e]> db) key' = live now db key'.
Proof. intros E. unfold live. by rewrite lookup_insert_ne. Qed.

Lemma live_delete_eq now (db : store) key : live now (delete key db) key = None.
Proof. unfold live. by rewrite lookup_delete_eq. Qed.









(** ** Token bucket *)

Section TokenBucket.

Context (userID : string) (I max : Z).

Lemma token_keys_differ : keyResetTime userID ≠ keyCount userID.
Proof. unfold keyResetTime, keyCount. intros H. by apply String.app_inj in H. Qed.

Lemma ledger_refill r n n' (db : store) :
  <[keyCount userID := Entry (VString n') None]>
    (<[keyResetTime userID := Entry (VString r) None]>
       (<[keyCount userID := Entry (VString n) None]> db))
  = ledger userID r n' db.
Proof.
  unfold ledger. pose proof token_keys_differ.
  rewrite (insert_insert_ne _ (keyResetTime userID) (keyCount userID)) by done.
  by rewrite insert_insert_eq.
Qed.

(** The token bucket, command by command. *)
Lemma token_bucket_unfold now db :
  RateLimitUsingTokenBucket userID I max now db
  = match live now db (keyResetTime userID) with
    | Some (Entry (VList _) _) | Some (Entry (VZSet _) _) => Rejected WRONGTYPE db
    | _ =>
        if I <=? now - lastResetTime now db userID
        then Resolved true (ledger userID now (max - 1) db)
        else
          match live now db (keyCount userID) with
          | Some (Entry (VString n) ex) =>
              if n <=? 0 then Resolved false db
              else Resolved true (<[keyCount userID := Entry (VString (n - 1)) ex]> db)
          | None => Resolved false db
          | Some _ => Rejected WRONGTYPE db
          end
    end.
Proof.
  pose proof token_keys_differ as Hk.
  assert (Hrefill :
    (await_ set (keyCount userID) max None;
     await now' <- clock;
     await_ set (keyResetTime userID) now' None;
     await_ decr (keyCount userID);
     ret true) now db
    = Resolved true (ledger userID now (max - 1) db)).
  { unfold bind, ret, clock, set, decr, incrby. cbv beta iota.
    rewrite live_insert_ne, live_insert_eq by done.
    by rewrite ledger_refill. }
  unfold RateLimitUsingTokenBucket, lastResetTime. cbv zeta.
  unfold bind at 1. unfold get at 1.
  destruct (live now db (keyResetTime userID)) as [[[r|l|z] ex]|]; try done;
    unfold bind at 1; unfold clock at 1; cbv beta iota; cbn [default from_option id];
    (destruct (I <=? _); [exact Hrefill|]);
    unfold bind at 1; unfold get at 1;
    (destruct (live now db (keyCount userID)) as [[[n|l'|z'] ex']|] eqn:Lc;
       cbn [default from_option id]; try done);
    (destruct (n <=? 0); [done|]);
    unfold bind, ret, decr, incrby; by rewrite Lc.
Qed.





Lemma live_ledger_reset now r n (db : store) :
  live now (ledger userID r n db) (keyResetTime userID) = Some (Entry (VString r) None).
Proof.
  pose proof token_keys_differ. unfold ledger.
  rewrite live_insert_ne by done. by rewrite live_insert_eq.
Qed.

Lemma live_ledger_count now r n (db : store) :
  live now (ledger userID r n db) (keyCount userID) = Some (Entry (VString n) None).
Proof. unfold ledger. by rewrite live_insert_eq. Qed.

Lemma ledger_count r n n' (db : store) :
  <[keyCount userID := Entry (VString n') None]> (ledger userID r n db)
  = ledger userID r n' db.
Proof. unfold ledger. by rewrite insert_insert_eq. Qed.

(** The first check of an identity, once the clock has passed the
    interval. *)
Lemma token_bucket_first now (db : store) :
  db !! keyResetTime userID = None →
  I ≤ now →
  RateLimitUsingTokenBucket userID I max now db
  = Resolved true (ledger userID now (max - 1) db).
Proof.
  intros Hr Hi. rewrite token_bucket_unfold. unfold lastResetTime, live.
  rewrite Hr. by destruct (Z.leb_spec I (now - 0)); [|lia].
Qed.


(** A check within the interval takes a token when there is one. *)
Lemma token_bucket_takes now r n (db : store) :
  now - r < I → 0 < n →
  RateLimitUsingTokenBucket userID I max now (ledger userID r n db)
  = Resolved true (ledger userID r (n - 1) db).
Proof.
  intros Hi Hn. rewrite token_bucket_unfold. unfold lastResetTime.
  rewrite live_ledger_reset, live_ledger_count.
  destruct (Z.leb_spec I (now - r)); [lia|].
  destruct (Z.leb_spec n 0); [lia|]. by rewrite ledger_count.
Qed.

Lemma token_bucket_denies now r n (db : store) :
  now - r < I → n ≤ 0 →
  RateLimitUsingTokenBucket userID I max now (ledger userID r n db)
  = Resolved false (ledger userID r n db).
Proof.
  intros Hi Hn. rewrite token_bucket_unfold. unfold lastResetTime.
  rewrite live_ledger_reset, live_ledger_count.
  destruct (Z.leb_spec I (now - r)); [lia|].
  by destruct (Z.leb_spec n 0); [|lia].
Qed.

End TokenBucket.





(** ** Sliding logs *)

Lemma live_log_store now userID z (db : store) :
  live now (log_store userID z db) userID = Some (Entry (VZSet z) None).
Proof. unfold log_store. by rewrite live_insert_eq. Qed.

Lemma log_store_log_store userID z z' (db : store) :
  log_store userID z' (log_store userID z db) = log_store userID z' db.
Proof. unfold log_store. by rewrite insert_insert_eq. Qed.

(** The sliding logs, command by command, on an identity without a log and
    on an identity with one. *)
Lemma sliding_logs_missing userID req I max now (db : store) :
  live now db userID = None →
  0 < max →
  RateLimitUsingSlidingLogs userID req I max now db
  = Resolved true (log_store userID {[req := now]} db).
Proof.
  intros L Hmax. unfold RateLimitUsingSlidingLogs. cbv zeta.
  unfold bind at 1. unfold clock at 1. cbv beta iota.
  unfold bind at 1. unfold zCount at 1. rewrite L.
  destruct (Z.leb_spec max 0); [lia|].
  unfold bind, ret, zAdd. by rewrite L.
Qed.

Lemma sliding_logs_admits userID req I max now z ex (db : store) :
  live now db userID = Some (Entry (VZSet z) ex) →
  window_count I now z < max →
  RateLimitUsingSlidingLogs userID req I max now db
  = Resolved true (<[userID := Entry (VZSet (<[req := now]> z)) ex]> db).
Proof.
  intros L Hc. unfold RateLimitUsingSlidingLogs. cbv zeta.
  unfold bind at 1. unfold clock at 1. cbv beta iota.
  unfold bind at 1. unfold zCount at 1. rewrite L.
  fold (window_count I now z).
  destruct (Z.leb_spec max (window_count I now z)); [lia|].
  unfold bind, ret, zAdd. by rewrite L.
Qed.

Lemma sliding_logs_denies userID req I max now z ex (db : store) :
  live now db userID = Some (Entry (VZSet z) ex) →
  max ≤ window_count I now z →
  window_count I now z ≤ max * 100 →
  RateLimitUsingSlidingLogs userID req I max now db = Resolved false db.
Proof.
  intros L Hc Hc'. unfold RateLimitUsingSlidingLogs. cbv zeta.
  unfold bind at 1. unfold clock at 1. cbv beta iota.
  unfold bind at 1. unfold zCount at 1. rewrite L.
  fold (window_count I now z).
  destruct (Z.leb_spec max (window_count I now z)); [|lia].
  unfold bind at 1. unfold zCount at 1. rewrite L.
  fold (window_count I now z).
  by destruct (Z.ltb_spec (max * 100) (window_count I now z)); [lia|].
Qed.

(** Counting a log whose entries all have the same score. *)
Lemma window_count_all_in I now T (z : gmap string Z) :
  map_Forall (λ _ s, s = T) z →
  now - I ≤ T ≤ now →
  window_count I now z = Z.of_nat (size z).
Proof.
  intros Hz HT. unfold window_count, in_score_range.
  rewrite map_filter_id; [done|].
  intros k s Hk. apply Hz in Hk as ->. unfold in_range. simpl.
  apply andb_true_iff. split; apply Z.leb_le; lia.
Qed.

Lemma window_count_all_out I now T (z : gmap string Z) :
  map_Forall (λ _ s, s = T) z →
  T < now - I →
  window_count I now z = 0.
Proof.
  intros Hz HT. unfold window_count, in_score_range.
  replace (filter _ z) with (∅ : gmap string Z); [done|].
  symmetry. apply map_empty_filter.
  intros k s Hk. apply Hz in Hk as ->. unfold in_range. simpl.
  intros [Hlo _]%andb_true_iff. apply Z.leb_le in Hlo. lia.
Qed.

(** C7: with [intervalSeconds = 60] and [maxRequests = 3], for an identity
    without a log: three checks with distinct event IDs at one clock time [T]
    are allowed, a fourth check at [T + 10] is denied, and a fifth at
    [T + 61] is allowed. The claim is the case [T = 0]. *)
Theorem sliding_logs_scenario userID e1 e2 e3 e4 e5 T (db : store) :
  db !! userID = None →
  e1 ≠ e2 → e1 ≠ e3 → e2 ≠ e3 →
  (session [(T, RateLimitUsingSlidingLogs userID e1 60 3);
            (T, RateLimitUsingSlidingLogs userID e2 60 3);
            (T, RateLimitUsingSlidingLogs userID e3 60 3);
            (T + 10, RateLimitUsingSlidingLogs userID e4 60 3);
            (T + 61, RateLimitUsingSlidingLogs userID e5 60 3)] db).1
  = [Some true; Some true; Some true; Some false; Some true].
Proof.
  intros Hdb H12 H13 H23.
  set (z1 := {[e1 := T]} : gmap string Z).
  set (z2 := <[e2 := T]> z1).
  set (z3 := <[e3 := T]> z2).
  assert (Hz1 : map_Forall (λ _ s, s = T) z1) by by apply map_Forall_singleton.
  assert (Hz2 : map_Forall (λ _ s, s = T) z2) by by apply map_Forall_insert_2.
  assert (Hz3 : map_Forall (λ _ s, s = T) z3) by by apply map_Forall_insert_2.
  assert (Hs1 : size z1 = 1%nat) by apply map_size_singleton.
  assert (Hs2 : size z2 = 2%nat).
  { unfold z2. rewrite map_size_insert_None, Hs1; [done|].
    unfold z1. by rewrite lookup_singleton_ne. }
  assert (Hs3 : size z3 = 3%nat).
  { unfold z3. rewrite map_size_insert_None, Hs2; [done|].
    unfold z2, z1. rewrite lookup_insert_ne by done. by rewrite lookup_singleton_ne. }
  unfold session.
  rewrite sliding_logs_missing; [|unfold live; by rewrite Hdb|lia].
  cbn [store_after result fst snd]. fold z1.
  rewrite (sliding_logs_admits _ _ _ _ _ z1 None);
    [|apply live_log_store|rewrite (window_count_all_in _ _ T); [lia|done|lia]].
  cbn [store_after result fst snd].
  fold (log_store userID (<[e2 := T]> z1) (log_store userID z1 db)).
  rewrite log_store_log_store. fold z2.
  rewrite (sliding_logs_admits _ _ _ _ _ z2 None);
    [|apply live_log_store|rewrite (window_count_all_in _ _ T); [lia|done|lia]].
  cbn [store_after result fst snd].
  fold (log_store userID (<[e3 := T]> z2) (log_store userID z2 db)).
  rewrite log_store_log_store. fold z3.
  rewrite (sliding_logs_denies _ _ _ _ _ z3 None);
    [|apply live_log_store
     |rewrite (window_count_all_in _ _ T); [lia|done|lia]
     |rewrite (window_count_all_in _ _ T); [lia|done|lia]].
  cbn [store_after result fst snd].
  rewrite (sliding_logs_admits _ _ _ _ _ z3 None);
    [|apply live_log_store|rewrite (window_count_all_out _ _ T); [lia|done|lia]].
  done.
Qed.

Lemma sliding_logs_scenario_witness :
  (session [(0, RateLimitUsingSlidingLogs "u" "e1" 60 3);
            (0, RateLimitUsingSlidingLogs "u" "e2" 60 3);
            (0, RateLimitUsingSlidingLogs "u" "e3" 60 3);
            (0 + 10, RateLimitUsingSlidingLogs "u" "e4" 60 3);
            (0 + 61, RateLimitUsingSlidingLogs "u" "e5" 60 3)] ∅).1
  = [Some true; Some true; Some true; Some false; Some true].
Proof.
  apply (sliding_logs_scenario "u" "e1" "e2" "e3" "e4" "e5" 0 ∅);
    [reflexivity|discriminate..].
Defined.

(** ** Leaky bucket *)

(** No leaky-bucket check answers [true]. *)
Lemma leaky_bucket_never_allows userID req max now db :
  result (RateLimitUsingLeakyBucket userID req max now db) ≠ Some true.
Proof.
  unfold_check. unfold_commands.
  repeat case_match; simplify_eq; done.
Qed.

(** On such a queue, and with room for two, the length test does not fire:
    the check pops, pushes and answers [false]. *)
Lemma leaky_bucket_short_queue userID req max now (db : store) :
  2 ≤ default 100 max →
  short_queue userID db →
  RateLimitUsingLeakyBucket userID req max now db
  = Resolved false (<[userID := Entry (VList [req]) None]> db).
Proof.
  intros Hmax Hq. unfold RateLimitUsingLeakyBucket. cbv zeta.
  unfold bind, ret, all2, lLen, rPop, rPush.
  destruct Hq as [Hq|[x Hq]].
  - assert (L : live now db userID = None) by (unfold live; by rewrite Hq).
    rewrite L. destruct (Z.leb_spec (default 100 max) 0); [lia|].
    by rewrite !L.
  - assert (L : live now db userID = Some (Entry (VList [x]) None))
      by (unfold live; by rewrite Hq).
    rewrite L. change (length [x]) with 1%nat.
    destruct (Z.leb_spec (default 100 max) (Z.of_nat 1)); [lia|].
    cbv beta iota. rewrite L. simpl. rewrite live_delete_eq.
    by rewrite insert_delete_eq.
Qed.

Lemma short_queue_push userID req (db : store) :
  short_queue userID (<[userID := Entry (VList [req]) None]> db).
Proof. right. exists req. by rewrite lookup_insert_eq. Qed.

(** From a missing queue, with [maximumRequests] at least 2, every check of
    every sequence answers [false], and the queue never holds more than one
    entry. *)
Lemma leaky_bucket_sessions userID max (reqs : list (Z * string)) (db : store) :
  2 ≤ default 100 max →
  short_queue userID db →
  (session ((λ tr, (tr.1, RateLimitUsingLeakyBucket userID tr.2 max)) <$> reqs) db).1
  = (λ _, Some false) <$> reqs
  ∧ short_queue userID
      (session ((λ tr, (tr.1, RateLimitUsingLeakyBucket userID tr.2 max)) <$> reqs) db).2.
Proof.
  intros Hmax. revert db.
  induction reqs as [|[t r] reqs IH]; intros db Hq; [done|].
  cbn [fmap list_fmap session fst snd].
  rewrite leaky_bucket_short_queue by done.
  cbn [store_after result].
  destruct (IH _ (short_queue_push userID r db)) as [IH1 IH2].
  split; [|exact IH2]. f_equal. exact IH1.
Qed.

(** ** Window keys *)

(** The fraction computed by the sliding window is always truncated to 0. *)
Lemma elapsedTimePercentage_zero currentWindow I :
  I ≠ 0 → trunc_rem_div currentWindow I = Int 0.
Proof.
  intros HI. unfold trunc_rem_div.
  destruct (Z.eqb_spec I 0); [done|]. f_equal.
  apply Z.quot_small_iff; [done|]. by apply Z.rem_bound_abs.
Qed.

(** Checks of one identity at different clock times use different keys. *)
Lemma window_key_inj userID t1 t2 :
  window_key userID t1 = window_key userID t2 → t1 = t2.
Proof.
  unfold window_key. intros H.
  apply String.app_inj in H. apply String.app_inj in H.
  by apply (inj pretty) in H.
Qed.

(** ** Fixed window *)

(** The fixed window, command by command: the key is the identity and the
    clock time to the second. *)
Lemma fixed_window_creates userID I max now (db : store) :
  live now db (window_key userID now) = None →
  0 < I →
  RateLimitUsingFixedWindow userID I max now db
  = Resolved true (<[window_key userID now := Entry (VString 0) (Some (now + I * 2))]> db).
Proof.
  intros L HI. unfold RateLimitUsingFixedWindow, Dayjs.utc. cbv zeta.
  unfold bind, ret, clock, get, exists_, set.
  cbv beta iota delta [Dayjs.unix].
  rewrite L. cbv beta iota. rewrite L. simpl.
  by destruct (Z.leb_spec (I * 2) 0); [lia|].
Qed.

Lemma fixed_window_counts userID I max now n ex (db : store) :
  live now db (window_key userID now) = Some (Entry (VString n) ex) →
  n < default 100 max →
  RateLimitUsingFixedWindow userID I max now db
  = Resolved true (<[window_key userID now := Entry (VString (n + 1)) ex]> db).
Proof.
  intros L Hn. unfold RateLimitUsingFixedWindow, Dayjs.utc. cbv zeta.
  unfold bind, ret, clock, get, exists_, incr, incrby.
  cbv beta iota delta [Dayjs.unix]. rewrite L.
  destruct (Z.leb_spec (default 100 max) n); [lia|].
  cbv beta iota. rewrite L. simpl. by rewrite L.
Qed.

Lemma fixed_window_denies userID I max now n ex (db : store) :
  live now db (window_key userID now) = Some (Entry (VString n) ex) →
  default 100 max ≤ n →
  RateLimitUsingFixedWindow userID I max now db = Resolved false db.
Proof.
  intros L Hn. unfold RateLimitUsingFixedWindow, Dayjs.utc. cbv zeta.
  unfold bind, ret, clock, get. cbv beta iota delta [Dayjs.unix]. rewrite L.
  by destruct (Z.leb_spec (default 100 max) n); [|lia].
Qed.

(** Once the key exists and counts [n], the next [k] checks at the same
    clock time are admitted as long as [n + k] does not pass
    [maximumRequests]. *)
Lemma fixed_window_counts_on userID I max now (k : nat) n ex (db : store) :
  live now db (window_key userID now) = Some (Entry (VString n) ex) →
  n + Z.of_nat k ≤ max →
  session (replicate k (now, RateLimitUsingFixedWindow userID I (Some max))) db
  = (replicate k (Some true),
     <[window_key userID now := Entry (VString (n + Z.of_nat k)) ex]> db).
Proof.
  revert n db. induction k as [|k IH]; intros n db L Hn.
  - simpl. rewrite Z.add_0_r. apply live_Some in L as [L _].
    by rewrite insert_id.
  - cbn [replicate session].
    rewrite (fixed_window_counts _ _ _ _ n ex) by (done || simpl; lia).
    cbn [store_after result].
    rewrite (IH (n + 1)); [|apply live_Some in L as [_ E]; by apply live_insert_eq|lia].
    cbn [fst snd]. rewrite insert_insert_eq.
    replace (n + 1 + Z.of_nat k) with (n + Z.of_nat (S k)) by lia. done.
Qed.

(** The first check of a key stores 0, so a burst at one clock time admits
    [maximumRequests + 1] checks. *)
Lemma fixed_window_burst userID I max now (db : store) :
  live now db (window_key userID now) = None →
  0 < I → 0 ≤ max →
  (session (replicate (S (Z.to_nat max))
              (now, RateLimitUsingFixedWindow userID I (Some max))) db).1
  = replicate (S (Z.to_nat max)) (Some true).
Proof.
  intros L HI Hmax. cbn [replicate session].
  rewrite fixed_window_creates by done. cbn [store_after result fst].
  rewrite (fixed_window_counts_on _ _ _ _ _ 0 (Some (now + I * 2)));
    [done| |lia].
  apply live_insert_eq. unfold expired. simpl. apply Z.leb_gt. lia.
Qed.

(** ** Sliding window *)

(** The sliding window, command by command. The weight of the previous
    window is always 1. *)
Lemma sliding_window_unfold userID I max now (db : store) :
  I ≠ 0 →
  RateLimitUsingSlidingWindow userID I max now db
  = match live now db (window_key userID now) with
    | Some (Entry (VList _) _) | Some (Entry (VZSet _) _) => Rejected WRONGTYPE db
    | current =>
        if max <=? count_at now db (window_key userID now)
        then Resolved false db
        else
          match live now db (window_key userID (now - I)) with
          | Some (Entry (VList _) _) | Some (Entry (VZSet _) _) => Rejected WRONGTYPE db
          | _ =>
              if negb (count_at now db (window_key userID (now - I))
                       + count_at now db (window_key userID now) =? 0)
              then Resolved false db
              else
                match current with
                | Some (Entry (VString n) ex) =>
                    Resolved true
                      (<[window_key userID now := Entry (VString (n + 1)) ex]> db)
                | _ =>
                    if I * 5 <=? 0 then Rejected InvalidExpire db
                    else Resolved true
                           (<[window_key userID now
                              := Entry (VString 0) (Some (now + I * 5))]> db)
                end
          end
    end.
Proof.
  intros HI.
  unfold RateLimitUsingSlidingWindow, Dayjs.utc. cbv zeta.
  unfold bind at 1 2. unfold clock at 1. unfold ret at 1.
  cbv beta iota delta [Dayjs.unix]. rewrite elapsedTimePercentage_zero by done.
  unfold bind at 1. unfold get at 1. unfold count_at.
  destruct (live now db (window_key userID now)) as [[[c|?|?] exc]|] eqn:Lc;
    try done; cbn [default from_option id].
  - destruct (max <=? c); [done|].
    unfold bind at 1. unfold get at 1.
    destruct (live now db (window_key userID (now - I))) as [[[p|?|?] exp]|] eqn:Lp;
      try done; cbn [default from_option id weighted truthy];
      rewrite Z.sub_0_r, Z.mul_1_r;
      (destruct (negb (_ =? 0)); [done|]);
      unfold bind, ret, exists_, incr, incrby; rewrite Lc; simpl; by rewrite Lc.
  - destruct (max <=? 0); [done|].
    unfold bind at 1. unfold get at 1.
    destruct (live now db (window_key userID (now - I))) as [[[p|?|?] exp]|] eqn:Lp;
      try done; cbn [default from_option id weighted truthy];
      rewrite Z.sub_0_r, Z.mul_1_r;
      (destruct (negb (_ =? 0)); [done|]);
      unfold bind, ret, exists_, set; rewrite Lc; simpl;
      by destruct (I * 5 <=? 0).
Qed.


(** Whenever the estimate of the specification reaches [maxRequests], the
    code answers [false] as well. The converse fails: the code also answers
    [false] whenever the two counts do not add up to 0. *)
Lemma sliding_window_denies_when_spec_does userID I max now (db : store) :
  0 < I → 0 < max →
  0 ≤ count_at now db (window_key userID now) →
  0 ≤ count_at now db (window_key userID (now - I)) →
  spec_sliding_window_denied (count_at now db (window_key userID now))
                             (count_at now db (window_key userID (now - I)))
                             now I max = true →
  result (RateLimitUsingSlidingWindow userID I max now db) = Some false
  ∨ result (RateLimitUsingSlidingWindow userID I max now db) = None.
Proof.
  intros HI Hmax Hc Hp Hspec.
  rewrite sliding_window_unfold by lia.
  set (cur := count_at now db (window_key userID now)) in *.
  set (prev := count_at now db (window_key userID (now - I))) in *.
  assert (Hsum : max ≤ cur ∨ prev + cur ≠ 0).
  { destruct (decide (prev + cur = 0)) as [Hz|Hz]; [|by right].
    assert (cur = 0) as -> by lia. assert (prev = 0) as -> by lia.
    unfold spec_sliding_window_denied in Hspec. apply Qle_bool_iff in Hspec.
    assert (E : (spec_estimate 0 0 now I == inject_Z 0)%Q)
      by (unfold spec_estimate; ring).
    rewrite E in Hspec. rewrite <- Zle_Qle in Hspec. lia. }
  destruct (live now db (window_key userID now)) as [[[c|?|?] exc]|];
    try (by right);
    (destruct (Z.leb_spec max cur); [by left|]);
    (destruct (live now db (window_key userID (now - I))) as [[[p|?|?] exp]|];
       try (by right));
    (destruct (Z.eqb_spec (prev + cur) 0); [lia|by left]).
Qed.

(** ** The strategies, command by command *)

Lemma session_app (cs1 cs2 : list (Z * promise bool)) (db : store) :
  session (cs1 ++ cs2) db
  = ((session cs1 db).1 ++ (session cs2 (session cs1 db).2).1,
     (session cs2 (session cs1 db).2).2).
Proof.
  revert db. induction cs1 as [|[t c] cs1 IH]; intros db.
  - simpl. by destruct (session cs2 db).
  - cbn [app session fst snd]. by rewrite IH.
Qed.

Lemma fixed_window_unfold userID I max now (db : store) :
  RateLimitUsingFixedWindow userID I max now db
  = match live now db (window_key userID now) with
    | None =>
        if I * 2 <=? 0 then Rejected InvalidExpire db
        else Resolved true
               (<[window_key userID now := Entry (VString 0) (Some (now + I * 2))]> db)
    | Some (Entry (VString n) ex) =>
        if default 100 max <=? n then Resolved false db
        else Resolved true (<[window_key userID now := Entry (VString (n + 1)) ex]> db)
    | Some _ => Rejected WRONGTYPE db
    end.
Proof.
  unfold RateLimitUsingFixedWindow, Dayjs.utc. cbv zeta.
  unfold bind, ret, clock, get, exists_, set, incr, incrby.
  cbv beta iota delta [Dayjs.unix].
  destruct (live now db (window_key userID now)) as [[[n|l|z] ex]|] eqn:L;
    try done.
  - destruct (default 100 max <=? n); [done|].
    cbv beta iota. rewrite L. simpl. by rewrite L.
  - cbv beta iota. rewrite L. simpl. by destruct (I * 2 <=? 0).
Qed.

Lemma leaky_bucket_unfold userID req max now (db : store) :
  RateLimitUsingLeakyBucket userID req max now db
  = match live now db userID with
    | None =>
        if default 100 max <=? 0 then Resolved false db
        else Resolved false (<[userID := Entry (VList [req]) None]> db)
    | Some (Entry (VList l) ex) =>
        if default 100 max <=? Z.of_nat (length l) then Resolved false db
        else
          match l, removelast l with
          | [], _ => Resolved false (<[userID := Entry (VList [req]) ex]> db)
          | _ :: _, [] => Resolved false (<[userID := Entry (VList [req]) None]> db)
          | _ :: _, l' => Resolved false (<[userID := Entry (VList (l' ++ [req])) ex]> db)
          end
    | Some _ => Rejected WRONGTYPE db
    end.
Proof.
  unfold RateLimitUsingLeakyBucket. cbv zeta.
  unfold bind, ret, all2, lLen, rPop, rPush.
  destruct (live now db userID) as [[[n|l|z] ex]|] eqn:L; try done.
  - destruct (default 100 max <=? Z.of_nat (length l)); [done|].
    cbv beta iota. rewrite L.
    destruct l as [|x l]; [simpl; by rewrite L|].
    assert (E : expired now (Entry (VList (x :: l)) ex) = false)
      by (by apply live_Some in L as [_ E]).
    destruct (last (x :: l)) as [y|] eqn:Hl;
      [|by apply last_None in Hl].
    destruct (removelast (x :: l)) as [|x' l'] eqn:Hr.
    + rewrite live_delete_eq. by rewrite insert_delete_eq.
    + rewrite live_insert_eq by done. by rewrite insert_insert_eq.
  - destruct (default 100 max <=? 0); [done|].
    cbv beta iota. by rewrite !L.
Qed.

Lemma sliding_logs_unfold userID req I max now (db : store) :
  RateLimitUsingSlidingLogs userID req I max now db
  = match live now db userID with
    | None =>
        if max <=? 0 then Resolved false db
        else Resolved true (log_store userID {[req := now]} db)
    | Some (Entry (VZSet z) ex) =>
        if max <=? window_count I now z
        then
          if max * 100 <? window_count I now z
          then
            let z' := out_of_score_range NegInf (Score (now - I)) z in
            if decide (z' = ∅) then Resolved false (delete userID db)
            else Resolved false (<[userID := Entry (VZSet z') ex]> db)
          else Resolved false db
        else Resolved true (<[userID := Entry (VZSet (<[req := now]> z)) ex]> db)
    | Some _ => Rejected WRONGTYPE db
    end.
Proof.
  unfold RateLimitUsingSlidingLogs, window_count, log_store. cbv zeta.
  unfold bind, ret, clock, zCount, zAdd, zRemRangeByScore. cbv beta iota.
  destruct (live now db userID) as [[[n|l|z] ex]|] eqn:L; try done.
  - destruct (max <=? _); [|by rewrite L].
    rewrite L. destruct (max * 100 <? _); [|done].
    rewrite L. by case_decide.
  - destruct (Z.leb_spec max 0); [|by rewrite L].
    rewrite L. destruct (Z.ltb_spec (max * 100) 0); [|done]. by rewrite L.
Qed.

(** ** Further properties of the fixed window *)

Lemma fixed_window_denies_on userID I max now (k : nat) n ex (db : store) :
  live now db (window_key userID now) = Some (Entry (VString n) ex) →
  default 100 max ≤ n →
  session (replicate k (now, RateLimitUsingFixedWindow userID I max)) db
  = (replicate k (Some false), db).
Proof.
  intros L Hn. induction k as [|k IH]; [done|].
  cbn [replicate session].
  rewrite (fixed_window_denies _ _ _ _ n ex) by done.
  cbn [store_after result]. by rewrite IH.
Qed.

(** X1: a burst of checks of one identity at one clock time, on a key that
    does not exist yet, is admitted [maximumRequests + 1] times and denied
    from then on; the key then counts [maximumRequests] and still expires
    [2 * intervalInSeconds] after its creation. *)
Theorem fixed_window_burst_then_denied userID I max now (k : nat) (db : store) :
  live now db (window_key userID now) = None →
  0 < I → 0 ≤ max →
  session (replicate (S (Z.to_nat max) + k)
             (now, RateLimitUsingFixedWindow userID I (Some max))) db
  = (replicate (S (Z.to_nat max)) (Some true) ++ replicate k (Some false),
     <[window_key userID now := Entry (VString max) (Some (now + I * 2))]> db).
Proof.
  intros L HI Hmax.
  assert (E : expired now (Entry (VString 0) (Some (now + I * 2))) = false)
    by (unfold expired; simpl; apply Z.leb_gt; lia).
  rewrite replicate_add, session_app.
  cbn [replicate session]. rewrite fixed_window_creates by done.
  cbn [store_after result fst snd].
  rewrite (fixed_window_counts_on _ _ _ _ _ 0 (Some (now + I * 2)));
    [|by apply live_insert_eq|lia].
  cbn [fst snd]. rewrite insert_insert_eq, Z.add_0_l, Z2Nat.id by done.
  rewrite (fixed_window_denies_on _ _ _ _ _ max (Some (now + I * 2)));
    [done|by apply live_insert_eq|simpl; lia].
Qed.

Lemma fixed_window_burst_then_denied_witness :
  live 1700000000 ∅ (window_key "u" 1700000000) = None
  ∧ 0 < 60 ∧ 0 ≤ 2
  ∧ session (replicate (S (Z.to_nat 2) + 2)
               (1700000000, RateLimitUsingFixedWindow "u" 60 (Some 2))) ∅
    = (replicate (S (Z.to_nat 2)) (Some true) ++ replicate 2 (Some false),
       <[window_key "u" 1700000000
         := Entry (VString 2) (Some (1700000000 + 60 * 2))]> ∅).
Proof.
  split; [reflexivity|]. split; [lia|]. split; [lia|].
  apply (fixed_window_burst_then_denied "u" 60 2 1700000000 2 ∅);
    [reflexivity|lia|lia].
Defined.

(** X2: the fixed window never denies an identity that sends one request
    per second, whatever [maximumRequests] is: every check at a clock time
    whose key does not exist is admitted, and a check creates no key but
    the one of its own clock time. *)
Theorem fixed_window_one_check_per_second userID I max (ts : list Z) (db : store) :
  0 < I →
  NoDup ts →
  (∀ t, t ∈ ts → db !! window_key userID t = None) →
  (session ((λ t, (t, RateLimitUsingFixedWindow userID I max)) <$> ts) db).1
  = (λ _, Some true) <$> ts.
Proof.
  intros HI Hnd. revert db.
  induction Hnd as [|t ts Ht Hnd IH]; intros db Hdb; [done|].
  cbn [fmap list_fmap session fst snd].
  rewrite fixed_window_creates;
    [|unfold live; rewrite Hdb; [done|by left]|done].
  cbn [store_after result]. f_equal. apply IH.
  intros t' Ht'. rewrite lookup_insert_ne.
  - apply Hdb. by right.
  - intros Hk. apply window_key_inj in Hk. by subst.
Qed.

Lemma fixed_window_one_check_per_second_witness :
  0 < 60 ∧ NoDup [1700000000; 1700000001; 1700000002]
  ∧ (session ((λ t, (t, RateLimitUsingFixedWindow "u" 60 (Some 0)))
                <$> [1700000000; 1700000001; 1700000002]) ∅).1
    = (λ _, Some true) <$> [1700000000; 1700000001; 1700000002].
Proof.
  assert (Hnd : NoDup [1700000000; 1700000001; 1700000002])
    by compute_done.
  split; [lia|]. split; [exact Hnd|].
  apply (fixed_window_one_check_per_second "u" 60 (Some 0) _ ∅);
    [lia|exact Hnd|intros; reflexivity].
Defined.

(** X3: a fixed-window check never takes the count of its key above
    [maximumRequests]: when the count it reads is at most
    [maximumRequests], so is the count it leaves, whether it admits, denies
    or rejects. *)
Theorem fixed_window_count_bounded userID I max now (db : store) :
  0 ≤ default 100 max →
  count_at now db (window_key userID now) ≤ default 100 max →
  count_at now (store_after (RateLimitUsingFixedWindow userID I max now db))
           (window_key userID now)
  ≤ default 100 max.
Proof.
  intros Hmax Hc. rewrite fixed_window_unfold. unfold count_at in *.
  destruct (live now db (window_key userID now)) as [[[n|l|z] ex]|] eqn:L;
    cbn [store_after]; rewrite ?L; try done.
  - destruct (Z.leb_spec (default 100 max) n);
      cbn [store_after]; [by rewrite L|].
    apply live_Some in L as [_ E].
    rewrite live_insert_eq by done. lia.
  - destruct (Z.leb_spec (I * 2) 0); cbn [store_after]; [by rewrite L|].
    rewrite live_insert_eq; [done|].
    unfold expired. simpl. apply Z.leb_gt. lia.
Qed.

Lemma fixed_window_count_bounded_witness :
  let db : store := {[ "u:1700000000" := Entry (VString 4) (Some 1700000120) ]} in
  0 ≤ default 100 (Some 5)
  ∧ count_at 1700000000 db (window_key "u" 1700000000) ≤ default 100 (Some 5)
  ∧ count_at 1700000000
      (store_after (RateLimitUsingFixedWindow "u" 60 (Some 5) 1700000000 db))
      (window_key "u" 1700000000)
    ≤ default 100 (Some 5).
Proof.
  intros db.
  assert (H0 : 0 ≤ default 100 (Some 5)) by (simpl; lia).
  assert (Hc : count_at 1700000000 db (window_key "u" 1700000000)
               ≤ default 100 (Some 5)) by (vm_compute; discriminate).
  split; [exact H0|]. split; [exact Hc|].
  exact (fixed_window_count_bounded "u" 60 (Some 5) 1700000000 db H0 Hc).
Defined.

(** X4: with an interval of 0 or less, the fixed window cannot create a
    key: the first check of a clock time rejects with the store's
    invalid-expiry error and writes nothing. *)
Theorem fixed_window_rejects_without_interval userID I max now (db : store) :
  I ≤ 0 →
  live now db (window_key userID now) = None →
  RateLimitUsingFixedWindow userID I max now db = Rejected InvalidExpire db.
Proof.
  intros HI L. rewrite fixed_window_unfold, L.
  by destruct (Z.leb_spec (I * 2) 0); [|lia].
Qed.

Lemma fixed_window_rejects_without_interval_witness :
  0 ≤ 0 ∧ live 1700000000 ∅ (window_key "u" 1700000000) = None
  ∧ RateLimitUsingFixedWindow "u" 0 (Some 5) 1700000000 ∅
    = Rejected InvalidExpire ∅.
Proof.
  split; [lia|]. split; [reflexivity|].
  apply fixed_window_rejects_without_interval; [lia|reflexivity].
Defined.

(** ** Further properties of the leaky bucket *)

(** X5: the leaky bucket never admits: on every store and for every
    request a check answers [false] or rejects. *)
Theorem leaky_bucket_answers_false_or_rejects userID req max now (db : store) :
  result (RateLimitUsingLeakyBucket userID req max now db) = Some false
  ∨ result (RateLimitUsingLeakyBucket userID req max now db) = None.
Proof.
  rewrite leaky_bucket_unfold.
  destruct (live now db userID) as [[[n|l|z] ex]|]; try (by right).
  - destruct (default 100 max <=? Z.of_nat (length l)); [by left|].
    destruct l as [|x l]; [by left|].
    destruct (removelast (x :: l)); by left.
  - destruct (default 100 max <=? 0); by left.
Qed.

(** X6: with [maximumRequests] at least 2, and from a missing queue, the
    queue holds after every check exactly the request ID of that check:
    each check pops what the last one pushed. *)
Theorem leaky_bucket_holds_latest userID max (reqs : list (Z * string)) t req
    (db : store) :
  2 ≤ default 100 max →
  db !! userID = None →
  (session ((λ tr, (tr.1, RateLimitUsingLeakyBucket userID tr.2 max))
              <$> (reqs ++ [(t, req)])) db).2
  = <[userID := Entry (VList [req]) None]> db.
Proof.
  intros Hmax Hdb.
  assert (Hgen : ∀ (rs : list (Z * string)) (d : store),
            short_queue userID d →
            (∀ key, key ≠ userID → d !! key = db !! key) →
            (session ((λ tr, (tr.1, RateLimitUsingLeakyBucket userID tr.2 max))
                        <$> (rs ++ [(t, req)])) d).2
            = <[userID := Entry (VList [req]) None]> db).
  { induction rs as [|[t' r'] rs IH]; intros d Hq Hd.
    - cbn [app fmap list_fmap session fst snd].
      rewrite leaky_bucket_short_queue by done. cbn [store_after].
      apply map_eq. intros key. destruct (decide (key = userID)) as [->|Hk].
      + by rewrite !lookup_insert_eq.
      + rewrite !lookup_insert_ne by done. by apply Hd.
    - cbn [app fmap list_fmap session fst snd].
      rewrite leaky_bucket_short_queue by done. cbn [store_after].
      apply IH; [apply short_queue_push|].
      intros key Hk. rewrite lookup_insert_ne by done. by apply Hd. }
  apply Hgen; [by left|done].
Qed.

Lemma leaky_bucket_holds_latest_witness :
  2 ≤ default 100 (Some 3) ∧ (∅ : store) !! "u" = None
  ∧ (session ((λ tr, (tr.1, RateLimitUsingLeakyBucket "u" tr.2 (Some 3)))
                <$> ([(1700000000, "r1"); (1700000001, "r2")]
                     ++ [(1700000002, "r3")])) ∅).2
    = <["u" := Entry (VList ["r3"]) None]> ∅.
Proof.
  split; [simpl; lia|]. split; [reflexivity|].
  apply leaky_bucket_holds_latest; [simpl; lia|reflexivity].
Defined.

(** X7: a queue that has reached [maximumRequests] entries stays as it is
    for ever: no check pops from a full queue, the queue has no expiry, and
    every later check, at any clock time and with any request ID, answers
    [false] and writes nothing. *)
Theorem leaky_bucket_full_for_ever userID max l (reqs : list (Z * string))
    (db : store) :
  db !! userID = Some (Entry (VList l) None) →
  default 100 max ≤ Z.of_nat (length l) →
  session ((λ tr, (tr.1, RateLimitUsingLeakyBucket userID tr.2 max)) <$> reqs) db
  = ((λ _, Some false) <$> reqs, db).
Proof.
  intros Hdb Hl. induction reqs as [|[t r] reqs IH]; [done|].
  rewrite !fmap_cons. cbn [session fst snd].
  assert (L : live t db userID = Some (Entry (VList l) None))
    by (unfold live; by rewrite Hdb).
  rewrite leaky_bucket_unfold, L.
  destruct (Z.leb_spec (default 100 max) (Z.of_nat (length l))); [|lia].
  cbn [store_after result]. by rewrite IH.
Qed.

Lemma leaky_bucket_full_for_ever_witness :
  let db : store := {[ "u" := Entry (VList ["r0"]) None ]} in
  db !! "u" = Some (Entry (VList ["r0"]) None)
  ∧ default 100 (Some 1) ≤ Z.of_nat (length ["r0"])
  ∧ session ((λ tr, (tr.1, RateLimitUsingLeakyBucket "u" tr.2 (Some 1)))
               <$> [(1700000000, "r1"); (1800000000, "r2")]) db
    = ((λ _, Some false) <$> [(1700000000, "r1"); (1800000000, "r2")], db).
Proof.
  intros db.
  assert (Hdb : db !! "u" = Some (Entry (VList ["r0"]) None)) by reflexivity.
  split; [exact Hdb|]. split; [simpl; lia|].
  apply (leaky_bucket_full_for_ever "u" (Some 1) ["r0"] _ db Hdb).
  simpl. lia.
Defined.

(** ** Further properties of the sliding logs *)

(** X8: the sliding logs deny at the limit: when the log of the identity
    holds [maximumRequests] entries or more scored from
    [now - intervalInSeconds] to [now], the check answers [false]. *)
Theorem sliding_logs_denies_at_limit userID req I max now z ex (db : store) :
  live now db userID = Some (Entry (VZSet z) ex) →
  max ≤ window_count I now z →
  result (RateLimitUsingSlidingLogs userID req I max now db) = Some false.
Proof.
  intros L Hc. rewrite sliding_logs_unfold, L.
  destruct (Z.leb_spec max (window_count I now z)); [|lia].
  destruct (max * 100 <? window_count I now z); [|done].
  cbv zeta. by case_decide.
Qed.

Lemma sliding_logs_denies_at_limit_witness :
  let z : gmap string Z := {[ "e1" := 1700000000; "e2" := 1700000030 ]} in
  let db : store := {[ "u" := Entry (VZSet z) None ]} in
  live 1700000059 db "u" = Some (Entry (VZSet z) None)
  ∧ 2 ≤ window_count 60 1700000059 z
  ∧ result (RateLimitUsingSlidingLogs "u" "e3" 60 2 1700000059 db) = Some false.
Proof.
  intros z db.
  assert (L : live 1700000059 db "u" = Some (Entry (VZSet z) None))
    by reflexivity.
  assert (Hc : 2 ≤ window_count 60 1700000059 z) by (vm_compute; discriminate).
  split; [exact L|]. split; [exact Hc|].
  exact (sliding_logs_denies_at_limit "u" "e3" 60 2 1700000059 z None db L Hc).
Defined.

Lemma window_count_insert_now I now req (z : gmap string Z) :
  0 ≤ I →
  window_count I now (<[req := now]> z) ≤ window_count I now z + 1.
Proof.
  intros HI. unfold window_count, in_score_range.
  rewrite map_filter_insert_True.
  - rewrite map_size_insert. destruct (filter _ z !! req); simpl; lia.
  - unfold in_range. simpl. apply andb_true_iff. split; apply Z.leb_le; lia.
Qed.

(** X9: with a non-negative interval, the log of the identity holds at most
    [maximumRequests] entries scored from [now - intervalInSeconds] to [now]
    after every admitted check. *)
Theorem sliding_logs_window_bounded userID req I max now (db db' : store) :
  0 ≤ I →
  RateLimitUsingSlidingLogs userID req I max now db = Resolved true db' →
  window_count I now (log_at now db' userID) ≤ max.
Proof.
  intros HI. rewrite sliding_logs_unfold. unfold log_at.
  destruct (live now db userID) as [[[n|l|z] ex]|] eqn:L; try done.
  - destruct (Z.leb_spec max (window_count I now z)).
    + destruct (max * 100 <? _); [|done]. cbv zeta. by case_decide.
    + intros [= <-]. apply live_Some in L as [_ E].
      rewrite live_insert_eq by done.
      pose proof (window_count_insert_now I now req z HI). lia.
  - destruct (Z.leb_spec max 0); [done|]. intros [= <-].
    rewrite live_log_store, <- insert_empty.
    pose proof (window_count_insert_now I now req ∅ HI) as Hc.
    unfold window_count at 2 in Hc. unfold in_score_range in Hc.
    rewrite map_filter_empty, map_size_empty in Hc. lia.
Qed.

Lemma sliding_logs_window_bounded_witness :
  let z : gmap string Z := {[ "e1" := 1700000000 ]} in
  let db : store := {[ "u" := Entry (VZSet z) None ]} in
  let db' : store := {[ "u" := Entry (VZSet (<["e2" := 1700000030]> z)) None ]} in
  0 ≤ 60
  ∧ RateLimitUsingSlidingLogs "u" "e2" 60 2 1700000030 db = Resolved true db'
  ∧ window_count 60 1700000030 (log_at 1700000030 db' "u") ≤ 2.
Proof.
  intros z db db'.
  assert (H : RateLimitUsingSlidingLogs "u" "e2" 60 2 1700000030 db
              = Resolved true db') by (subst z db db'; evaluate).
  split; [lia|]. split; [exact H|].
  apply (sliding_logs_window_bounded "u" "e2" 60 2 1700000030 db db');
    [lia|exact H].
Defined.

(** X10: a request ID that is already in the log takes no new entry: the
    sorted set keeps one entry for each ID. So with [maximumRequests] at
    least 2, an identity that sends every request under one ID is never
    denied, and its log holds that one entry, scored with the time of the
    last check. *)
Theorem sliding_logs_one_id_never_denied userID req I max (ts : list Z) t
    (db : store) :
  2 ≤ max →
  db !! userID = None →
  session ((λ t, (t, RateLimitUsingSlidingLogs userID req I max)) <$> (ts ++ [t])) db
  = ((λ _, Some true) <$> (ts ++ [t]), log_store userID {[req := t]} db).
Proof.
  intros Hmax Hdb.
  assert (Hone : ∀ now s (d : store),
            RateLimitUsingSlidingLogs userID req I max now
              (log_store userID {[req := s]} d)
            = Resolved true (log_store userID {[req := now]} d)).
  { intros now s d. rewrite sliding_logs_unfold, live_log_store.
    assert (window_count I now {[req := s]} ≤ 1).
    { unfold window_count, in_score_range. rewrite map_filter_singleton.
      case_decide; [rewrite map_size_singleton|rewrite map_size_empty]; lia. }
    destruct (Z.leb_spec max (window_count I now {[req := s]})); [lia|].
    fold (log_store userID (<[req := now]> {[req := s]}) (log_store userID {[req := s]} d)).
    by rewrite log_store_log_store, insert_singleton_eq. }
  assert (Hgen : ∀ (rs : list Z) s (d : store),
            session ((λ t, (t, RateLimitUsingSlidingLogs userID req I max))
                       <$> (rs ++ [t])) (log_store userID {[req := s]} d)
            = ((λ _, Some true) <$> (rs ++ [t]), log_store userID {[req := t]} d)).
  { induction rs as [|t' rs IH]; intros s d.
    - cbn [app]. rewrite !fmap_cons, !fmap_nil. cbn [session].
      rewrite Hone. done.
    - cbn [app]. rewrite !fmap_cons. cbn [session].
      rewrite Hone. cbn [store_after result fst snd]. by rewrite IH. }
  destruct ts as [|t' ts].
  - cbn [app]. rewrite !fmap_cons, !fmap_nil. cbn [session].
    rewrite sliding_logs_missing; [done|unfold live; by rewrite Hdb|lia].
  - cbn [app]. rewrite !fmap_cons. cbn [session].
    rewrite sliding_logs_missing; [|unfold live; by rewrite Hdb|lia].
    cbn [store_after result fst snd]. by rewrite Hgen.
Qed.

Lemma sliding_logs_one_id_never_denied_witness :
  2 ≤ 2 ∧ (∅ : store) !! "u" = None
  ∧ session ((λ t, (t, RateLimitUsingSlidingLogs "u" "e" 60 2))
               <$> ([1700000000; 1700000001; 1700000002] ++ [1700000003])) ∅
    = ((λ _, Some true) <$> ([1700000000; 1700000001; 1700000002] ++ [1700000003]),
       log_store "u" {["e" := 1700000003]} ∅).
Proof.
  split; [lia|]. split; [reflexivity|].
  apply sliding_logs_one_id_never_denied; [lia|reflexivity].
Defined.

(** X11: an admitted sliding-logs check only adds: it scores its request
    ID with the clock time and keeps every other entry of the log, also the
    entries that have left the window. *)
Theorem sliding_logs_admission_keeps_entries userID req I max now
    (db db' : store) :
  RateLimitUsingSlidingLogs userID req I max now db = Resolved true db' →
  log_at now db' userID = <[req := now]> (log_at now db userID).
Proof.
  rewrite sliding_logs_unfold. unfold log_at.
  destruct (live now db userID) as [[[n|l|z] ex]|] eqn:L; try done.
  - destruct (max <=? window_count I now z).
    + destruct (max * 100 <? _); [|done]. cbv zeta. by case_decide.
    + intros [= <-]. apply live_Some in L as [_ E].
      by rewrite live_insert_eq.
  - destruct (max <=? 0); [done|]. intros [= <-].
    by rewrite live_log_store, insert_empty.
Qed.

Lemma sliding_logs_admission_keeps_entries_witness :
  let z : gmap string Z := {[ "old" := 1600000000 ]} in
  let db : store := {[ "u" := Entry (VZSet z) None ]} in
  let db' : store := {[ "u" := Entry (VZSet (<["e" := 1700000000]> z)) None ]} in
  RateLimitUsingSlidingLogs "u" "e" 60 1 1700000000 db = Resolved true db'
  ∧ log_at 1700000000 db' "u" = <["e" := 1700000000]> (log_at 1700000000 db "u").
Proof.
  intros z db db'.
  assert (H : RateLimitUsingSlidingLogs "u" "e" 60 1 1700000000 db
              = Resolved true db') by (subst z db db'; evaluate).
  split; [exact H|].
  exact (sliding_logs_admission_keeps_entries "u" "e" 60 1 1700000000 db db' H).
Defined.

(** ** Further properties of the sliding window *)

(** X12: with a positive interval, and the keys of the current and the
    previous window missing or holding counts, the sliding window admits
    exactly when the count of the current window is below
    [maximumRequests] and the two counts add up to 0. The elapsed fraction
    has no part in the decision. *)
Theorem sliding_window_admits_iff userID I max now (db : store) :
  0 < I →
  reads_as_count now db (window_key userID now) →
  reads_as_count now db (window_key userID (now - I)) →
  result (RateLimitUsingSlidingWindow userID I max now db) = Some true
  ↔ count_at now db (window_key userID now) < max
    ∧ count_at now db (window_key userID (now - I))
      + count_at now db (window_key userID now) = 0.
Proof.
  intros HI Hc Hp. rewrite sliding_window_unfold by lia.
  unfold reads_as_count in Hc, Hp. unfold count_at.
  destruct (live now db (window_key userID now)) as [[[c|?|?] exc]|];
    try done;
    (match goal with
     | |- context [max <=? ?x] =>
         destruct (Z.leb_spec max x); [split; [done|lia]|]
     end);
    (destruct (live now db (window_key userID (now - I))) as [[[p|?|?] exp]|];
       try done);
    (match goal with
     | |- context [?x =? 0] =>
         destruct (Z.eqb_spec x 0); simpl negb; cbv iota;
         [|split; [done|lia]]
     end);
    try (destruct (Z.leb_spec (I * 5) 0); [lia|]);
    split; (done || lia).
Qed.

Lemma sliding_window_admits_iff_witness :
  let db : store := {[ "u:1700000000" := Entry (VString 0) (Some 1700000300) ]} in
  0 < 60
  ∧ reads_as_count 1700000000 db (window_key "u" 1700000000)
  ∧ reads_as_count 1700000000 db (window_key "u" (1700000000 - 60))
  ∧ (result (RateLimitUsingSlidingWindow "u" 60 5 1700000000 db) = Some true
     ↔ count_at 1700000000 db (window_key "u" 1700000000) < 5
       ∧ count_at 1700000000 db (window_key "u" (1700000000 - 60))
         + count_at 1700000000 db (window_key "u" 1700000000) = 0).
Proof.
  intros db.
  assert (Hc : reads_as_count 1700000000 db (window_key "u" 1700000000))
    by (vm_compute; exact I).
  assert (Hp : reads_as_count 1700000000 db (window_key "u" (1700000000 - 60)))
    by (vm_compute; exact I).
  split; [lia|]. split; [exact Hc|]. split; [exact Hp|].
  apply (sliding_window_admits_iff "u" 60 5 1700000000 db); [lia|exact Hc|exact Hp].
Defined.

Lemma sliding_window_denies_on userID I max now (k : nat) (db : store) :
  RateLimitUsingSlidingWindow userID I max now db = Resolved false db →
  session (replicate k (now, RateLimitUsingSlidingWindow userID I max)) db
  = (replicate k (Some false), db).
Proof.
  intros H. induction k as [|k IH]; [done|].
  cbn [replicate session]. rewrite H. cbn [store_after result]. by rewrite IH.
Qed.

(** X13: with a positive interval and [maximumRequests] at least 1, a burst
    of checks of one identity at one clock time, with no key for that time
    and none for the time one interval earlier, is admitted exactly twice,
    whatever [maximumRequests] is: the first check stores 0, the second
    makes it 1, and from then on the sum of the counts is not 0. *)
Theorem sliding_window_two_per_second userID I max now (k : nat) (db : store) :
  0 < I → 1 ≤ max →
  db !! window_key userID now = None →
  db !! window_key userID (now - I) = None →
  session (replicate (2 + k) (now, RateLimitUsingSlidingWindow userID I max)) db
  = ([Some true; Some true] ++ replicate k (Some false),
     <[window_key userID now := Entry (VString 1) (Some (now + I * 5))]> db).
Proof.
  intros HI Hmax Hc Hp.
  assert (Hne : window_key userID now ≠ window_key userID (now - I))
    by (intros Hk%window_key_inj; lia).
  assert (E : ∀ n, expired now (Entry (VString n) (Some (now + I * 5))) = false)
    by (intros n; unfold expired; simpl; apply Z.leb_gt; lia).
  assert (Lp : ∀ e, live now (<[window_key userID now := e]> db)
                      (window_key userID (now - I)) = None)
    by (intros e; rewrite live_insert_ne by done; unfold live; by rewrite Hp).
  cbn [Nat.add replicate session].
  (* first check: both keys missing *)
  rewrite (sliding_window_unfold _ _ _ _ db) by lia. unfold count_at, live.
  rewrite Hc, Hp.
  destruct (Z.leb_spec max 0); [lia|]. simpl negb. cbv iota.
  destruct (Z.leb_spec (I * 5) 0); [lia|]. cbn [store_after result].
  (* second check: the key holds 0 *)
  rewrite sliding_window_unfold by lia. unfold count_at.
  rewrite Lp, live_insert_eq by done.
  destruct (Z.leb_spec max 0); [lia|]. simpl negb. cbv iota.
  cbn [store_after result]. rewrite insert_insert_eq.
  (* the rest: the key holds 1 *)
  rewrite sliding_window_denies_on; [done|].
  rewrite sliding_window_unfold by lia. unfold count_at.
  rewrite Lp, live_insert_eq by done.
  by destruct (Z.leb_spec max (0 + 1)).
Qed.

Lemma sliding_window_two_per_second_witness :
  0 < 60 ∧ 1 ≤ 100
  ∧ (∅ : store) !! window_key "u" 1700000000 = None
  ∧ (∅ : store) !! window_key "u" (1700000000 - 60) = None
  ∧ session (replicate (2 + 3) (1700000000, RateLimitUsingSlidingWindow "u" 60 100)) ∅
    = ([Some true; Some true] ++ replicate 3 (Some false),
       <[window_key "u" 1700000000
         := Entry (VString 1) (Some (1700000000 + 60 * 5))]> ∅).
Proof.
  split; [lia|]. split; [lia|]. split; [reflexivity|]. split; [reflexivity|].
  apply sliding_window_two_per_second; [lia|lia|reflexivity|reflexivity].
Defined.

(** X14: the sliding window never denies an identity that sends one request
    per second, whatever [maximumRequests] (at least 1) is: when every
    window key of the identity that exists counts 0 and the clock times of
    the checks are distinct and have no key yet, every check is admitted. *)
Theorem sliding_window_one_check_per_second userID I max (ts : list Z)
    (db : store) :
  0 < I → 1 ≤ max →
  NoDup ts →
  (∀ t, t ∈ ts → db !! window_key userID t = None) →
  windows_count_zero userID db →
  (session ((λ t, (t, RateLimitUsingSlidingWindow userID I max)) <$> ts) db).1
  = (λ _, Some true) <$> ts.
Proof.
  intros HI Hmax Hnd. revert db.
  induction Hnd as [|t ts Ht Hnd IH]; intros db Hdb Hz; [done|].
  rewrite !fmap_cons. cbn [session fst snd].
  assert (Lc : live t db (window_key userID t) = None)
    by (unfold live; rewrite Hdb; [done|by left]).
  assert (Hp : count_at t db (window_key userID (t - I)) = 0
               ∧ reads_as_count t db (window_key userID (t - I))).
  { unfold count_at, reads_as_count, live.
    destruct (db !! window_key userID (t - I)) as [e|] eqn:Hl; [|done].
    apply Hz in Hl as [ex ->]. by destruct (expired t _). }
  destruct Hp as [Hp Hr].
  assert (Hc : count_at t db (window_key userID t) = 0)
    by (unfold count_at; by rewrite Lc).
  assert (Hgo : RateLimitUsingSlidingWindow userID I max t db
                = Resolved true
                    (<[window_key userID t
                       := Entry (VString 0) (Some (t + I * 5))]> db)).
  { rewrite sliding_window_unfold by lia. rewrite Hp, Hc, Lc.
    unfold reads_as_count in Hr.
    destruct (Z.leb_spec max 0); [lia|].
    destruct (Z.leb_spec (I * 5) 0); [lia|].
    by destruct (live t db (window_key userID (t - I))) as [[[p|?|?] exp]|]. }
  rewrite Hgo. cbn [store_after result]. f_equal. apply IH.
  - intros t' Ht'. rewrite lookup_insert_ne; [apply Hdb; by right|].
    intros Hk%window_key_inj. by subst.
  - intros t' e. destruct (decide (t' = t)) as [->|Hne].
    + rewrite lookup_insert_eq. intros [= <-]. by eexists.
    + rewrite lookup_insert_ne by (intros Hk%window_key_inj; by subst).
      apply Hz.
Qed.

Lemma sliding_window_one_check_per_second_witness :
  0 < 60 ∧ 1 ≤ 1 ∧ NoDup [1700000000; 1700000060; 1700000001]
  ∧ windows_count_zero "u" ∅
  ∧ (session ((λ t, (t, RateLimitUsingSlidingWindow "u" 60 1))
                <$> [1700000000; 1700000060; 1700000001]) ∅).1
    = (λ _, Some true) <$> [1700000000; 1700000060; 1700000001].
Proof.
  assert (Hnd : NoDup [1700000000; 1700000060; 1700000001]) by compute_done.
  assert (Hz : windows_count_zero "u" ∅) by (intros t e H; discriminate H).
  split; [lia|]. split; [lia|]. split; [exact Hnd|]. split; [exact Hz|].
  apply (sliding_window_one_check_per_second "u" 60 1 _ ∅);
    [lia|lia|exact Hnd|intros; reflexivity|exact Hz].
Defined.

(** ** Further properties of the token bucket *)

(** Within the interval of the last reset the bucket hands out the tokens
    it holds, one for each check, and then denies. *)
Lemma token_bucket_spends userID I max r (m : nat) (ts : list Z) (db : store) :
  Forall (λ t, t - r < I) ts →
  session ((λ t, (t, RateLimitUsingTokenBucket userID I max)) <$> ts)
          (ledger userID r (Z.of_nat m) db)
  = (replicate (m `min` length ts) (Some true)
     ++ replicate (length ts - m) (Some false),
     ledger userID r (Z.of_nat (m - length ts)) db).
Proof.
  intros Hts. revert m.
  induction Hts as [|t ts Ht Hts IH]; intros m.
  - cbn [fmap list_fmap session length]. by rewrite Nat.min_0_r, Nat.sub_0_r.
  - rewrite fmap_cons. cbn [session length]. destruct m as [|m].
    + rewrite token_bucket_denies by (done || simpl; lia).
      cbn [store_after result fst snd]. rewrite (IH 0%nat).
      cbn [fst snd]. by rewrite Nat.sub_0_r.
    + rewrite token_bucket_takes by (done || lia).
      cbn [store_after result fst snd].
      replace (Z.of_nat (S m) - 1) with (Z.of_nat m) by lia.
      rewrite (IH m). done.
Qed.

(** X15: the token bucket admits [maximumRequests] requests in an interval
    and no more. For an identity without a reset time, and a clock that has
    passed the interval, the first check refills and is admitted; of the
    checks that follow within the interval, the first
    [maximumRequests - 1] are admitted and all later ones denied. *)
Theorem token_bucket_admits_max_per_interval userID I (m : nat) now (ts : list Z)
    (db : store) :
  db !! keyResetTime userID = None →
  I ≤ now →
  Forall (λ t, t - now < I) ts →
  session ((λ t, (t, RateLimitUsingTokenBucket userID I (Z.of_nat (S m))))
             <$> (now :: ts)) db
  = (Some true :: replicate (m `min` length ts) (Some true)
               ++ replicate (length ts - m) (Some false),
     ledger userID now (Z.of_nat (m - length ts)) db).
Proof.
  intros Hdb HI Hts. rewrite fmap_cons. cbn [session].
  rewrite token_bucket_first by done. cbn [store_after result].
  replace (Z.of_nat (S m) - 1) with (Z.of_nat m) by lia.
  by rewrite token_bucket_spends.
Qed.

Lemma token_bucket_admits_max_per_interval_witness :
  (∅ : store) !! keyResetTime "u" = None
  ∧ 60 ≤ 1700000000
  ∧ Forall (λ t, t - 1700000000 < 60) [1700000000; 1700000010; 1700000059]
  ∧ session ((λ t, (t, RateLimitUsingTokenBucket "u" 60 (Z.of_nat (S 1))))
               <$> (1700000000 :: [1700000000; 1700000010; 1700000059])) ∅
    = (Some true
         :: replicate (1 `min` length [1700000000; 1700000010; 1700000059]) (Some true)
         ++ replicate (length [1700000000; 1700000010; 1700000059] - 1) (Some false),
       ledger "u" 1700000000
         (Z.of_nat (1 - length [1700000000; 1700000010; 1700000059])) ∅).
Proof.
  assert (Hts : Forall (λ t, t - 1700000000 < 60)
                       [1700000000; 1700000010; 1700000059])
    by (repeat constructor; lia).
  split; [reflexivity|]. split; [lia|]. split; [exact Hts|].
  apply token_bucket_admits_max_per_interval; [reflexivity|lia|exact Hts].
Defined.

(** X16: a [maximumRequests] of 0 or less is not refused: the check that
    refills is admitted all the same and leaves a negative count, and the
    checks that follow within the interval are denied. The bucket then
    admits one request in each interval. *)
Theorem token_bucket_admits_without_quota userID I max now (ts : list Z)
    (db : store) :
  max ≤ 0 →
  db !! keyResetTime userID = None →
  I ≤ now →
  Forall (λ t, t - now < I) ts →
  session ((λ t, (t, RateLimitUsingTokenBucket userID I max)) <$> (now :: ts)) db
  = (Some true :: ((λ _, Some false) <$> ts), ledger userID now (max - 1) db)
  ∧ remainingTokens now (ledger userID now (max - 1) db) userID < 0.
Proof.
  intros Hmax Hdb HI Hts. split.
  - rewrite fmap_cons. cbn [session].
    rewrite token_bucket_first by done. cbn [store_after result].
    induction Hts as [|t ts Ht Hts IH]; [done|].
    rewrite !fmap_cons. cbn [session].
    rewrite token_bucket_denies by (done || lia).
    cbn [store_after result fst snd] in *.
    by injection IH as -> ->.
  - unfold remainingTokens. rewrite live_ledger_count. lia.
Qed.

Lemma token_bucket_admits_without_quota_witness :
  0 ≤ 0 ∧ (∅ : store) !! keyResetTime "u" = None ∧ 60 ≤ 1700000000
  ∧ Forall (λ t, t - 1700000000 < 60) [1700000001; 1700000002]
  ∧ session ((λ t, (t, RateLimitUsingTokenBucket "u" 60 0))
               <$> (1700000000 :: [1700000001; 1700000002])) ∅
    = (Some true :: ((λ _, Some false) <$> [1700000001; 1700000002]),
       ledger "u" 1700000000 (0 - 1) ∅)
  ∧ remainingTokens 1700000000 (ledger "u" 1700000000 (0 - 1) ∅) "u" < 0.
Proof.
  assert (Hts : Forall (λ t, t - 1700000000 < 60) [1700000001; 1700000002])
    by (repeat constructor; lia).
  split; [lia|]. split; [reflexivity|]. split; [lia|]. split; [exact Hts|].
  apply token_bucket_admits_without_quota; [lia|reflexivity|lia|exact Hts].
Defined.

(** ** Further properties of all strategies *)




Lemma sliding_window_other_keys userID I max now (db : store) key :
  key ≠ window_key userID now →
  store_after (RateLimitUsingSlidingWindow userID I max now db) !! key = db !! key.
Proof.
  intros Hk. unfold_check. unfold_commands.
  cbv beta iota delta [Dayjs.unix].
  repeat case_match; simplify_eq; cbn [store_after];
    rewrite ?lookup_insert_ne by done; done.
Qed.

(** X18: a check touches no key but those of its own identity and clock
    time: the window key of the fixed and the sliding window, the identity
    itself for the leaky bucket and the sliding logs, the reset time and the
    count of the token bucket. Every other key of the store is left as it
    was, whatever the outcome. *)
Theorem check_leaves_other_keys (s : strategy) userID req I max now
    (db : store) key :
  key ∉ keys_of s userID now →
  store_after (check s userID req I max now db) !! key = db !! key.
Proof.
  intros Hk. destruct s; cbn [check keys_of] in *.
  - assert (key ≠ window_key userID now) by set_solver.
    rewrite fixed_window_unfold.
    repeat case_match; cbn [store_after]; rewrite ?lookup_insert_ne by done; done.
  - assert (key ≠ userID) by set_solver.
    rewrite leaky_bucket_unfold.
    repeat case_match; cbn [store_after]; rewrite ?lookup_insert_ne by done; done.
  - assert (key ≠ userID) by set_solver.
    rewrite sliding_logs_unfold. unfold log_store. cbv zeta.
    repeat case_match; cbn [store_after];
      rewrite ?lookup_insert_ne, ?lookup_delete_ne by done; done.
  - apply sliding_window_other_keys. set_solver.
  - assert (key ≠ keyResetTime userID) by set_solver.
    assert (key ≠ keyCount userID) by set_solver.
    rewrite token_bucket_unfold. unfold ledger.
    repeat case_match; cbn [store_after]; rewrite ?lookup_insert_ne by done; done.
Qed.

Lemma check_leaves_other_keys_witness :
  let db : store := {[ "v:count" := Entry (VString 3) None ]} in
  ("v:count" ∉ keys_of TokenBucket "u" 1700000000)
  ∧ store_after (check TokenBucket "u" "r" 60 5 1700000000 db) !! "v:count"
    = db !! "v:count".
Proof.
  intros db.
  assert (Hk : "v:count" ∉ keys_of TokenBucket "u" 1700000000) by compute_done.
  split; [exact Hk|].
  exact (check_leaves_other_keys TokenBucket "u" "r" 60 5 1700000000 db "v:count" Hk).
Defined.
